(** * knn.c: the per-point neighbour list and the all-pairs driver

    A shallow embedding of [src/knn.c] (struct segment, segment_init,
    segment_put, segmented_knn) and the properties of the design document
    checked against it.

    Conventions.
    - [unsigned int] values are integers in [Z]; the product [i*dim] used as
      an array index is reduced modulo [2^32].  The loop counters are never
      reduced: [i < len] and [j < len] bound every increment by [len], which
      itself fits in 32 bits.
    - [malloc] is taken to succeed, and [len * sizeof(struct segment)] not to
      overflow.
    - [ftype] is a floating-point type (the typedef of the source is written
      the wrong way round).  The code only stores and compares values of this
      type, so it is embedded as the primitive binary64 floats, whose
      comparisons follow IEEE 754 (a NaN compares false with everything).
    - A [struct segment *] that the code owns uniquely is embedded as the
      value it points to; [next] is a nullable pointer, that is, an option. *)

From Stdlib Require Import ZArith List Lia Bool Floats.
From stdpp Require Import base list.
Import ListNotations.

Local Open Scope Z_scope.

(** ** Data *)

Definition ftype := float.

(** [struct segment { unsigned int index; ftype dist; struct segment next; }]
    The field [next] is compared with and assigned [NULL] and followed by
    [cur = cur->next], so it is read as a pointer to the next node. *)
#[local] Set Warnings "-register-all".
Inductive segment : Type :=
  Segment (index : Z) (dist : ftype) (next : option segment).

Definition index (s : segment) : Z := let '(Segment i _ _) := s in i.
Definition dist (s : segment) : ftype := let '(Segment _ d _) := s in d.
Definition next (s : segment) : option segment := let '(Segment _ _ n) := s in n.

(** [segment_init]: overwrites the three fields of [*this], whatever they
    held before. *)
Definition segment_init (this : segment) : segment :=
  Segment 0 (-1)%float None.

(** The body of the [for] loop of [segment_put], run for at most [fuel]
    iterations with the cursor at [cur]; the result is the chain from the
    cursor on, after the loop.

    - [cur->dist < 0]: the node is free; it takes [(cindex, cdist)] and the
      loop breaks.
    - [else if (cur->dist > dist) { }]: the branch is empty.
    - [cur->next == NULL]: empty branch, the cursor stays where it is;
      otherwise the cursor moves to [cur->next]. *)
Fixpoint put_loop (fuel : nat) (cur : segment) (cindex : Z) (cdist d : ftype)
  : segment :=
  match fuel with
  | O => cur
  | S fuel' =>
      if (dist cur <? 0)%float then Segment cindex cdist (next cur)
      else
        let cur := if (d <? dist cur)%float then cur else cur in
        match next cur with
        | None => put_loop fuel' cur cindex cdist d
        | Some nx =>
            Segment (index cur) (dist cur)
                    (Some (put_loop fuel' nx cindex cdist d))
        end
  end.

(** [segment_put(this, index, dist, max_nei)]: [i] runs from [0] while
    [i < max_nei]. *)
Definition segment_put (this : segment) (idx : Z) (d : ftype) (max_nei : Z)
  : segment :=
  let cindex := idx in
  let cdist := d in
  put_loop (Z.to_nat max_nei) this cindex cdist d.

(** ** The list a chain stands for

    The code has no reader.  [segment_init] marks a node free with the
    distance [-1] and [segment_put] tests [cur->dist < 0] to find a free node,
    so the entries of a list are the nodes of the chain that do not hold a
    negative distance, in chain order. *)
Record NeighborEntry : Type := Entry { id : Z; distance : ftype }.

Fixpoint entries (s : segment) : list NeighborEntry :=
  let '(Segment i d n) := s in
  (if (d <? 0)%float then [] else [Entry i d])
    ++ match n with None => [] | Some s' => entries s' end.

Definition size (s : segment) : nat := length (entries s).

(** A list in use: initialised, then any sequence of [segment_put] calls,
    each with its own arguments [(index, dist, max_nei)]. *)
Definition put_call (s : segment) (c : Z * ftype * Z) : segment :=
  segment_put s (fst (fst c)) (snd (fst c)) (snd c).

Definition after_calls (s0 : segment) (cs : list (Z * ftype * Z)) : segment :=
  fold_left put_call cs (segment_init s0).

(** The same with one loop bound [k] for all the offers [(index, dist)]. *)
Definition after_offers (k : Z) (s0 : segment) (offers : list (Z * ftype))
  : segment :=
  after_calls s0 (map (fun o => (o, k)) offers).

(** ** Chains of any length

    [segment_put] takes any chain, not only the single node that
    [segment_init] leaves. *)

(** The number of nodes of a chain. *)
Fixpoint chain_length (s : segment) : nat :=
  let '(Segment _ _ n) := s in
  S (match n with None => O | Some s' => chain_length s' end).

(** Whether one of the first [n] nodes of the chain is free, that is, holds
    a negative distance: the nodes the cursor of [segment_put] can reach in
    [n] iterations. *)
Fixpoint has_free (n : nat) (s : segment) : bool :=
  match n with
  | O => false
  | S n' =>
      let '(Segment _ d nx) := s in
      (d <? 0)%float
      || match nx with None => false | Some s' => has_free n' s' end
  end.

(** ** Memory, failure and the call log

    [segmented_knn] works on the block [neigh] returned by [malloc] and reads
    the caller's buffer [vec].  A computation is a function from the memory
    to an optional result: [None] stands for an access outside a block, for
    which C defines no behaviour.  The memory also carries [calls], the log
    of the calls the builder makes, in program order. *)
Inductive event : Type :=
| EvDist (i j : Z)                       (* dist_func(vec[i*dim], vec[j*dim], dim) *)
| EvPut (owner idx : Z) (d : ftype).     (* segment_put(neigh[owner], idx, d, ..) *)

Record mem : Type := Mem { neigh : list segment; calls : list event }.

Definition M (A : Type) : Type := mem -> option (A * mem).

Definition ret {A} (a : A) : M A := fun m => Some (a, m).

Definition bind {A B} (c : M A) (k : A -> M B) : M B :=
  fun m => match c m with
           | Some (a, m') => k a m'
           | None => None
           end.

Notation "'let*' x := c 'in' k" := (bind c (fun x => k))
  (at level 10, x name, c at level 100, k at level 200).
Notation "c ;;; k" := (bind c (fun _ => k))
  (at level 100, k at level 200, right associativity).

(** [neigh[i]] as an rvalue and as the target of a write. *)
Definition load_neigh (i : Z) : M segment :=
  fun m => match neigh m !! Z.to_nat i with
           | Some s => Some (s, m)
           | None => None
           end.

Definition store_neigh (i : Z) (s : segment) : M unit :=
  fun m => match neigh m !! Z.to_nat i with
           | Some _ => Some (tt, Mem (<[Z.to_nat i := s]> (neigh m)) (calls m))
           | None => None
           end.

(** [vec[k]], where [k] is an [unsigned int]. *)
Definition load_vec (vec : list ftype) (k : Z) : M ftype :=
  fun m => match vec !! Z.to_nat k with
           | Some x => Some (x, m)
           | None => None
           end.

Definition log (e : event) : M unit :=
  fun m => Some (tt, Mem (neigh m) (calls m ++ [e])).

(** [for (i = lo; i < hi; i++) body(i)], as [n = hi - lo] iterations. *)
Fixpoint for_loop (n : nat) (i : Z) (body : Z -> M unit) : M unit :=
  match n with
  | O => ret tt
  | S n' => body i ;;; for_loop n' (i + 1) body
  end.

Definition for_range (lo hi : Z) (body : Z -> M unit) : M unit :=
  for_loop (Z.to_nat (hi - lo)) lo body.

(** Arithmetic of [unsigned int]. *)
Definition uint (z : Z) : Z := z mod 2 ^ 32.

(** [malloc(len * sizeof(struct segment))]: a block of [len] nodes whose
    contents are whatever [junk] says. *)
Definition malloc (junk : nat -> segment) (len : Z) : list segment :=
  map junk (seq 0 (Z.to_nat len)).

(** ** The builder *)
Section Builder.

(** [dist_func] is called but defined nowhere in the file: it is a
    parameter.  It receives what the call passes: the two elements
    [vec[i*dim]] and [vec[j*dim]], and [dim]. *)
Variable dist_func : ftype -> ftype -> Z -> ftype.

(** Both calls of [segment_put] in [segmented_knn] pass three arguments to a
    function of four: the bound [max_nei] of the insertion loop is left out,
    and the [max_nei] of the builder is used nowhere in its body.
    [put_max_nei] stands for the value the insertion loop runs with; every
    statement below is for all its values, or says which one it takes. *)
Variable put_max_nei : Z.

(** [segment_put(neigh[owner], idx, d)] *)
Definition put (owner idx : Z) (d : ftype) : M unit :=
  let* this := load_neigh owner in
  log (EvPut owner idx d) ;;;
  store_neigh owner (segment_put this idx d put_max_nei).

(** [segment_init(neigh[i])] *)
Definition init (i : Z) : M unit :=
  let* this := load_neigh i in
  store_neigh i (segment_init this).

(** The body of the inner loop. *)
Definition pair_body (vec : list ftype) (dim i j : Z) : M unit :=
  let* a := load_vec vec (uint (i * dim)) in
  let* b := load_vec vec (uint (j * dim)) in
  log (EvDist i j) ;;;
  let d := dist_func a b dim in
  put i j d ;;;
  put j i d.

(** The two nested loops over the pairs. *)
Definition scan (vec : list ftype) (len dim : Z) : M unit :=
  for_range 0 len (fun i =>
    for_range (i + 1) len (fun j => pair_body vec dim i j)).

(** The body of [segmented_knn] after the allocation.  The function has no
    [return] statement; its declared result is the block [neigh]. *)
Definition segmented_knn (vec : list ftype) (len dim max_nei : Z) : M unit :=
  for_range 0 len init ;;;
  scan vec len dim.

(** One run of the builder: the block it leaves and the calls it made. *)
Definition run_knn (junk : nat -> segment) (vec : list ftype)
           (len dim max_nei : Z) : option (list segment * list event) :=
  match segmented_knn vec len dim max_nei (Mem (malloc junk len) []) with
  | Some (_, m) => Some (neigh m, calls m)
  | None => None
  end.

End Builder.

(** ** The calls of a run, written out *)

(** [i, i+1, ..., i+n-1] *)
Fixpoint zrange (n : nat) (i : Z) : list Z :=
  match n with
  | O => []
  | S n' => i :: zrange n' (i + 1)
  end.


(** The element [vec[i*dim]] of an access inside the buffer. *)
Definition vec_at (vec : list ftype) (dim i : Z) : ftype :=
  nth (Z.to_nat (uint (i * dim))) vec 0%float.

(** The calls made for the pair [(i, j)]: one evaluation of the metric, and
    the two insertions of its result. *)
Definition pair_calls (dist_func : ftype -> ftype -> Z -> ftype)
           (vec : list ftype) (dim i j : Z) : list event :=
  let d := dist_func (vec_at vec dim i) (vec_at vec dim j) dim in
  [EvDist i j; EvPut i j d; EvPut j i d].

Definition knn_calls (dist_func : ftype -> ftype -> Z -> ftype)
           (vec : list ftype) (len dim : Z) : list event :=
  flat_map (fun i =>
    flat_map (pair_calls dist_func vec dim i)
             (zrange (Z.to_nat (len - (i + 1))) (i + 1)))
    (zrange (Z.to_nat (len - 0)) 0).


(** Every element [vec[i*dim]] the builder reads lies in the buffer. *)
Definition in_bounds (vec : list ftype) (len dim : Z) : Prop :=
  forall i, 0 <= i < len -> uint (i * dim) < Z.of_nat (length vec).

(** The vectors the buffer holds: [len] slices of up to [dim] elements. *)
Definition rows (vec : list ftype) (len dim : Z) : list (list ftype) :=
  map (fun i => take (Z.to_nat dim) (drop (Z.to_nat (i * dim)) vec))
      (zrange (Z.to_nat len) 0).

(** ** Invariants *)

(** The node [segment_init] leaves. *)
Definition free_node : segment := Segment 0 (-1)%float None.

(** What holds of every node the builder owns, at all times: it is the only
    node of its chain, and when it holds an entry, the entry is one of the
    candidates [P] admits. *)
Definition cell_ok (P : Z -> Prop) (s : segment) : Prop :=
  next s = None /\ ((dist s <? 0)%float = true \/ P (index s)).

(** The candidates of point [p]: the other points of the dataset. *)
Definition candidate (len p idx : Z) : Prop := idx <> p /\ 0 <= idx < len.

Definition block_ok (len : Z) (l : list segment) : Prop :=
  length l = Z.to_nat len
  /\ forall p s, l !! p = Some s -> cell_ok (candidate len (Z.of_nat p)) s.

(** ** The block of first candidates *)

(** The list of point [p > 0] once point 0 was offered to it. *)
Definition keeps_zero (dist_func : ftype -> ftype -> Z -> ftype)
           (vec : list ftype) (dim : Z) (p : nat) : segment :=
  Segment 0 (dist_func (vec_at vec dim 0) (vec_at vec dim (Z.of_nat p)) dim) None.

(** The list of point 0 after [q] offers. *)
Definition head_after (dist_func : ftype -> ftype -> Z -> ftype)
           (vec : list ftype) (dim : Z) (q : nat) : segment :=
  match q with
  | O => free_node
  | S _ => Segment 1 (dist_func (vec_at vec dim 0) (vec_at vec dim 1) dim) None
  end.

(** The block after the insertions for the pairs [(0, 1) .. (0, q)], with
    [r] points still to come. *)
Definition block_after (dist_func : ftype -> ftype -> Z -> ftype)
           (vec : list ftype) (dim : Z) (q r : nat) : list segment :=
  head_after dist_func vec dim q
  :: map (keeps_zero dist_func vec dim) (seq 1 q) ++ replicate r free_node.

(** ** Order of the entries *)

(** "ascending by distance, then by id on ties" *)
Definition entry_le (a b : NeighborEntry) : bool :=
  (distance a <? distance b)%float
  || ((distance a =? distance b)%float && (id a <=? id b)).

Fixpoint sorted_entries (l : list NeighborEntry) : bool :=
  match l with
  | [] => true
  | a :: l' =>
      match l' with
      | [] => true
      | b :: _ => entry_le a b && sorted_entries l'
      end
  end.

Definition ids (l : list NeighborEntry) : list Z := map id l.

(** ** The list of the design document (section 4.2), for comparison

    The definitions of this part follow the words of the design document,
    not the code: a sorted sequence of at most [capacity] entries with its
    [try_insert], and the full-sort reference of the nearest neighbours. *)

(** "distance strictly less, or equal with a strictly smaller id" *)
Definition entry_lt (a b : NeighborEntry) : bool :=
  (distance a <? distance b)%float
  || ((distance a =? distance b)%float && (id a <? id b)).

(** "the first position whose entry has distance greater than the new
    distance, or, on a distance tie, greater-or-equal id" *)
Fixpoint insert_sorted (e : NeighborEntry) (l : list NeighborEntry)
  : list NeighborEntry :=
  match l with
  | [] => [e]
  | x :: l' =>
      if (distance e <? distance x)%float
         || ((distance x =? distance e)%float && (id e <=? id x))
      then e :: l
      else x :: insert_sorted e l'
  end.

Definition doc_try_insert (capacity : nat) (l : list NeighborEntry)
           (e : NeighborEntry) : bool * list NeighborEntry :=
  match capacity with
  | O => (false, l)
  | S _ =>
      if (length l <? capacity)%nat then (true, insert_sorted e l)
      else match last l with
           | Some worst =>
               if entry_lt e worst
               then (true, insert_sorted e (removelast l))
               else (false, l)
           | None => (false, l)
           end
  end.

Definition doc_offers (capacity : nat) (offers : list (Z * ftype))
  : list NeighborEntry :=
  fold_left (fun l o => snd (doc_try_insert capacity l (Entry (fst o) (snd o))))
            offers [].

(** All the other points, sorted by distance and then id, cut at
    [min k (len - 1)]. *)
Definition true_nearest (dist_func : ftype -> ftype -> Z -> ftype)
           (vec : list ftype) (len dim k p : Z) : list NeighborEntry :=
  let others := filter (fun j => negb (j =? p)) (zrange (Z.to_nat len) 0) in
  let all :=
    map (fun j => Entry j (dist_func (vec_at vec dim p) (vec_at vec dim j) dim))
        others in
  take (Z.to_nat (Z.min k (len - 1))) (fold_right insert_sorted [] all).

(** ** Concrete inputs *)

(** The metric of the design document's scenario: absolute difference. *)
Definition absdiff (a b : ftype) (dim : Z) : ftype := abs (a - b)%float.

(** The dataset of the scenario: four points of dimension 1. *)
Definition scenario : list ftype := [0; 1; 3; 6]%float.

(** A buffer of three elements read as two vectors of dimension 2. *)
Definition ragged : list ftype := [0; 1; 3]%float.

(** Two calls of [segment_put] on the list of point 0. *)
Definition two_calls : list (Z * ftype * Z) :=
  [(2, 3%float, 2); (1, 1%float, 2)].

(** Two fillings of a freshly allocated block. *)
Definition no_junk : nat -> segment := fun _ => Segment 0 0%float None.

Definition some_junk : nat -> segment :=
  fun n => Segment (Z.of_nat n) 7%float (Some (Segment 5 (-2)%float None)).

(** * Proofs *)

(** ** Facts on floats *)

Lemma nonneg_not_negative (d : ftype) :
  (0 <=? d)%float = true -> (d <? 0)%float = false.
Proof.
  rewrite leb_spec, ltb_spec.
  change (Prim2SF 0%float) with (S754_zero false).
  destruct (Prim2SF d) as [s | s | | s m e]; try destruct s; cbn; congruence.
Qed.

Lemma abs_not_negative (x : ftype) : (abs x <? 0)%float = false.
Proof.
  rewrite ltb_spec, abs_spec.
  change (Prim2SF 0%float) with (S754_zero false).
  destruct (Prim2SF x) as [s | s | | s m e]; reflexivity.
Qed.

(** ** The insertion loop on a chain of one node *)

Lemma put_loop_null fuel cur ci cd d :
  next cur = None ->
  put_loop fuel cur ci cd d =
  match fuel with
  | O => cur
  | S _ => if (dist cur <? 0)%float then Segment ci cd None else cur
  end.
Proof.
  intros Hn. induction fuel as [|fuel IH]; [reflexivity|].
  cbn [put_loop]. rewrite Hn.
  destruct (dist cur <? 0)%float eqn:E; [reflexivity|].
  destruct (d <? dist cur)%float; rewrite Hn, IH;
    destruct fuel; try rewrite E; reflexivity.
Qed.

Lemma segment_put_null this idx d k :
  next this = None ->
  segment_put this idx d k =
  if (0 <? k) && (dist this <? 0)%float then Segment idx d None else this.
Proof.
  intros Hn. unfold segment_put. rewrite put_loop_null by exact Hn.
  destruct (Z.ltb_spec 0 k) as [Hk | Hk].
  - destruct (Z.to_nat k) eqn:E; [lia | reflexivity].
  - replace (Z.to_nat k) with O by lia. reflexivity.
Qed.

Lemma segment_put_zero this idx d : segment_put this idx d 0 = this.
Proof. reflexivity. Qed.

Lemma segment_put_occupied this idx d k :
  next this = None -> (dist this <? 0)%float = false ->
  segment_put this idx d k = this.
Proof.
  intros Hn Hd. rewrite segment_put_null, Hd, andb_false_r by exact Hn.
  reflexivity.
Qed.

Lemma size_null s : next s = None -> (size s <= 1)%nat.
Proof.
  destruct s as [i d n]. cbn. intros ->. unfold size. cbn.
  destruct (d <? 0)%float; cbn; lia.
Qed.

Lemma cell_ok_init P s : cell_ok P (segment_init s).
Proof. split; [reflexivity | left; reflexivity]. Qed.

Lemma cell_ok_put (P : Z -> Prop) s idx d k :
  cell_ok P s -> P idx -> cell_ok P (segment_put s idx d k).
Proof.
  intros [Hn Hc] Hidx. rewrite segment_put_null by exact Hn.
  destruct ((0 <? k) && (dist s <? 0)%float).
  - split; [reflexivity | right; exact Hidx].
  - split; assumption.
Qed.

Lemma after_calls_ok (P : Z -> Prop) s0 cs :
  Forall (fun c => P (fst (fst c))) cs -> cell_ok P (after_calls s0 cs).
Proof.
  unfold after_calls. generalize (cell_ok_init P s0).
  generalize (segment_init s0) as s.
  induction cs as [|c cs IH]; intros s Hs Hall; [exact Hs|].
  inversion Hall; subst. cbn [fold_left]. apply IH; [|assumption].
  apply cell_ok_put; assumption.
Qed.

Lemma cell_ok_entries (P : Z -> Prop) s :
  cell_ok P s ->
  sorted_entries (entries s) = true /\ NoDup (ids (entries s))
  /\ Forall P (ids (entries s)) /\ (size s <= 1)%nat.
Proof.
  destruct s as [i d n]. intros [Hn Hc]. cbn in Hn, Hc. subst n.
  unfold size. cbn. destruct (d <? 0)%float; cbn.
  - repeat split; try constructor; lia.
  - destruct Hc as [Hc | Hc]; [discriminate|].
    repeat split; try lia; repeat constructor; try assumption.
    intros H; inversion H.
Qed.

Lemma not_in_Forall_ne (x : Z) (l : list Z) : Forall (fun y => y <> x) l -> ~ In x l.
Proof.
  intros H Hin. rewrite Forall_forall in H.
  apply list_elem_of_In in Hin. exact (H x Hin eq_refl).
Qed.

(** X5.  The first offer a free list accepts stays: with a positive loop
    bound and no negative distance among the offers, the list holds the first
    offer and nothing else, whatever the later offers are. *)
Lemma after_offers_first k s0 o os :
  0 < k ->
  Forall (fun o => (snd o <? 0)%float = false) (o :: os) ->
  after_offers k s0 (o :: os) = Segment (fst o) (snd o) None.
Proof.
  intros Hk Hall. inversion Hall as [|? ? Ho Hos]; subst.
  unfold after_offers, after_calls. cbn [map fold_left].
  unfold put_call at 2. cbn [fst snd].
  rewrite segment_put_null by reflexivity.
  replace (0 <? k) with true by (symmetry; apply Z.ltb_lt; exact Hk).
  cbn [segment_init dist andb].
  change ((-1 <? 0)%float) with true. cbv iota.
  induction os as [|o' os IH]; [reflexivity|].
  inversion Hos; subst. cbn [map fold_left]. unfold put_call at 2.
  rewrite segment_put_occupied by (try reflexivity; exact Ho).
  apply IH; [|assumption]. constructor; assumption.
Qed.

(** ** Loops *)

Lemma for_loop_ext (b1 b2 : Z -> M unit) :
  (forall k m, b1 k m = b2 k m) ->
  forall n i m, for_loop n i b1 m = for_loop n i b2 m.
Proof.
  intros Hb. induction n as [|n IH]; intros i m; [reflexivity|].
  cbn [for_loop]. unfold bind. rewrite Hb.
  destruct (b2 i m) as [[[] m']|]; [apply IH | reflexivity].
Qed.

(** The rule for a counted loop: an invariant [I], indexed by the counter,
    and the calls [ev k] that iteration [k] appends to the log. *)
Lemma for_loop_rule (I : Z -> mem -> Prop) (ev : Z -> list event)
      (body : Z -> M unit) :
  forall n i m,
    I i m ->
    (forall k m1, i <= k < i + Z.of_nat n -> I k m1 ->
       exists m2, body k m1 = Some (tt, m2) /\ I (k + 1) m2
                  /\ calls m2 = calls m1 ++ ev k) ->
    exists m', for_loop n i body m = Some (tt, m') /\ I (i + Z.of_nat n) m'
               /\ calls m' = calls m ++ flat_map ev (zrange n i).
Proof.
  induction n as [|n IH]; intros i m Hi Hbody.
  - exists m. cbn. rewrite Z.add_0_r, app_nil_r. auto.
  - destruct (Hbody i m) as (m1 & E1 & I1 & C1); [lia | exact Hi |].
    destruct (IH (i + 1) m1 I1) as (m' & E' & I' & C').
    { intros k m2 Hk. apply Hbody. lia. }
    exists m'. cbn [for_loop zrange flat_map]. unfold bind at 1. rewrite E1.
    split; [exact E'|]. split.
    + replace (i + Z.of_nat (S n)) with (i + 1 + Z.of_nat n) by lia. exact I'.
    + rewrite C', C1, <- app_assoc. reflexivity.
Qed.



(** ** The initialisation loop *)

Lemma init_step l c i x :
  l !! Z.to_nat i = Some x ->
  init i (Mem l c) = Some (tt, Mem (<[Z.to_nat i := free_node]> l) c).
Proof.
  intros H. unfold init, bind, load_neigh, store_neigh. cbn [neigh calls].
  rewrite H. cbn [neigh calls]. rewrite H. reflexivity.
Qed.

Lemma init_loop (suf : list segment) :
  forall (pre : list segment) (c : list event),
    for_loop (length suf) (Z.of_nat (length pre)) init (Mem (pre ++ suf) c)
    = Some (tt, Mem (pre ++ replicate (length suf) free_node) c).
Proof.
  induction suf as [|x suf IH]; intros pre c.
  - reflexivity.
  - cbn [length for_loop]. unfold bind.
    rewrite (init_step _ _ _ x)
      by (rewrite Nat2Z.id; apply list_lookup_middle; reflexivity).
    rewrite Nat2Z.id, (insert_app_r_alt pre (x :: suf)), Nat.sub_diag by lia.
    cbn [insert list_insert].
    specialize (IH (pre ++ [free_node]) c).
    rewrite length_app, Nat2Z.inj_add, <- app_assoc in IH.
    change (Z.of_nat (length [free_node])) with 1 in IH. cbn [app] in IH.
    rewrite IH, <- app_assoc. reflexivity.
Qed.

Lemma init_all junk len c :
  for_range 0 len init (Mem (malloc junk len) c)
  = Some (tt, Mem (replicate (Z.to_nat len) free_node) c).
Proof.
  unfold for_range. rewrite Z.sub_0_r.
  pose proof (init_loop (malloc junk len) [] c) as H. cbn [length app] in H.
  unfold malloc in *. rewrite length_map, length_seq in H. exact H.
Qed.

(** ** The scan over the pairs *)

Lemma run_knn_scan dist_func nei junk vec len dim k :
  run_knn dist_func nei junk vec len dim k =
  match scan dist_func nei vec len dim
             (Mem (replicate (Z.to_nat len) free_node) []) with
  | Some (_, m) => Some (neigh m, calls m)
  | None => None
  end.
Proof.
  unfold run_knn, segmented_knn, bind. rewrite init_all. reflexivity.
Qed.

Lemma put_step nei owner idx d m s :
  neigh m !! Z.to_nat owner = Some s ->
  put nei owner idx d m =
  Some (tt, Mem (<[Z.to_nat owner := segment_put s idx d nei]> (neigh m))
                (calls m ++ [EvPut owner idx d])).
Proof.
  intros H. unfold put, bind, load_neigh, log, store_neigh.
  rewrite H. cbn [neigh calls]. rewrite H. reflexivity.
Qed.

Lemma uint_nonneg z : 0 <= uint z.
Proof. unfold uint. apply Z.mod_pos_bound. reflexivity. Qed.

Lemma load_vec_ok vec len dim i m :
  in_bounds vec len dim -> 0 <= i < len ->
  load_vec vec (uint (i * dim)) m = Some (vec_at vec dim i, m).
Proof.
  intros Hb Hi. unfold load_vec, vec_at.
  destruct (lookup_lt_is_Some_2 vec (Z.to_nat (uint (i * dim)))) as [x Hx].
  { specialize (Hb i Hi). pose proof (uint_nonneg (i * dim)). lia. }
  rewrite nth_lookup, Hx. reflexivity.
Qed.

Lemma pair_body_ext (f1 f2 : ftype -> ftype -> Z -> ftype) nei vec dim i j m :
  (forall a b d, f1 a b d = f2 a b d) ->
  pair_body f1 nei vec dim i j m = pair_body f2 nei vec dim i j m.
Proof.
  intros Hf. unfold pair_body, bind.
  destruct (load_vec vec (uint (i * dim)) m) as [[a m1]|]; [|reflexivity].
  destruct (load_vec vec (uint (j * dim)) m1) as [[b m2]|]; [|reflexivity].
  rewrite Hf. reflexivity.
Qed.

Section Scan.

Variable dist_func : ftype -> ftype -> Z -> ftype.
Variables (nei : Z) (vec : list ftype) (len dim : Z).
Hypothesis Hvec : in_bounds vec len dim.

(** [J] is a property of the block that every insertion the scan can make
    preserves. *)
Variable J : list segment -> Prop.
Hypothesis J_length : forall l, J l -> length l = Z.to_nat len.
Hypothesis J_put :
  forall l p idx d s,
    J l -> l !! Z.to_nat p = Some s ->
    0 <= p < len -> 0 <= idx < len -> idx <> p ->
    J (<[Z.to_nat p := segment_put s idx d nei]> l).

Lemma J_cell l p : J l -> 0 <= p < len -> exists s, l !! Z.to_nat p = Some s.
Proof.
  intros Hl Hp. apply lookup_lt_is_Some_2. rewrite (J_length l Hl). lia.
Qed.

Lemma pair_step i j m :
  0 <= i -> i < j -> j < len -> J (neigh m) ->
  exists m', pair_body dist_func nei vec dim i j m = Some (tt, m')
             /\ J (neigh m')
             /\ calls m' = calls m ++ pair_calls dist_func vec dim i j.
Proof.
  intros Hi Hij Hj HJ. unfold pair_body.
  unfold bind at 1. rewrite (load_vec_ok vec len dim i) by (auto; lia).
  unfold bind at 1. rewrite (load_vec_ok vec len dim j) by (auto; lia).
  unfold bind at 1, log at 1.
  set (d := dist_func (vec_at vec dim i) (vec_at vec dim j) dim).
  destruct (J_cell (neigh m) i HJ) as [si Hsi]; [lia|].
  unfold bind at 1. rewrite (put_step nei i j d _ si) by exact Hsi.
  cbn [neigh calls].
  assert (J1 : J (<[Z.to_nat i := segment_put si j d nei]> (neigh m)))
    by (apply J_put; auto; lia).
  destruct (J_cell _ j J1) as [sj Hsj]; [lia|].
  rewrite (put_step nei j i d _ sj) by exact Hsj. cbn [neigh calls].
  eexists. split; [reflexivity|]. cbn [neigh calls]. split.
  - apply J_put; auto; lia.
  - unfold pair_calls. fold d. rewrite <- !app_assoc. reflexivity.
Qed.

(** The outer loop from any row [i] on. *)
Lemma rows_spec n i m :
  0 <= i -> J (neigh m) ->
  exists m',
    for_loop n i
      (fun i => for_range (i + 1) len
                  (fun j => pair_body dist_func nei vec dim i j)) m
    = Some (tt, m')
    /\ J (neigh m')
    /\ calls m' =
       calls m ++
       flat_map (fun i => flat_map (pair_calls dist_func vec dim i)
                            (zrange (Z.to_nat (len - (i + 1))) (i + 1)))
                (zrange n i).
Proof.
  intros Hi HJ. unfold for_range.
  destruct (for_loop_rule (fun _ m => J (neigh m))
              (fun i => flat_map (pair_calls dist_func vec dim i)
                          (zrange (Z.to_nat (len - (i + 1))) (i + 1)))
              (fun i => for_loop (Z.to_nat (len - (i + 1))) (i + 1)
                          (fun j => pair_body dist_func nei vec dim i j))
              n i m HJ) as (m' & E & HJ' & C).
  - intros i' m1 Hi' HJ1.
    destruct (for_loop_rule (fun _ m => J (neigh m))
                (pair_calls dist_func vec dim i')
                (fun j => pair_body dist_func nei vec dim i' j)
                (Z.to_nat (len - (i' + 1))) (i' + 1) m1 HJ1) as (m2 & E2 & HJ2 & C2).
    + intros j m2 Hj HJ2. apply pair_step; auto; lia.
    + exists m2. auto.
  - exists m'. auto.
Qed.

Lemma scan_spec m :
  J (neigh m) ->
  exists m', scan dist_func nei vec len dim m = Some (tt, m')
             /\ J (neigh m')
             /\ calls m' = calls m ++ knn_calls dist_func vec len dim.
Proof.
  intros HJ. apply (rows_spec (Z.to_nat (len - 0)) 0 m); [lia | exact HJ].
Qed.

End Scan.

(** ** The block the builder leaves *)

Lemma block_ok_free len : block_ok len (replicate (Z.to_nat len) free_node).
Proof.
  split; [apply length_replicate|].
  intros p s [-> _]%lookup_replicate. apply (cell_ok_init _ free_node).
Qed.

Lemma block_ok_put nei len l p idx d s :
  block_ok len l -> l !! Z.to_nat p = Some s ->
  0 <= p < len -> 0 <= idx < len -> idx <> p ->
  block_ok len (<[Z.to_nat p := segment_put s idx d nei]> l).
Proof.
  intros [Hlen Hcells] Hs Hp Hidx Hne. split; [rewrite length_insert; exact Hlen|].
  intros q s' Hq. destruct (decide (Z.to_nat p = q)) as [<- | Hpq].
  - rewrite list_lookup_insert_eq in Hq by (eapply lookup_lt_Some; eauto).
    injection Hq as <-. apply cell_ok_put.
    + apply (Hcells _ _ Hs).
    + split; lia.
  - rewrite list_lookup_insert_ne in Hq by exact Hpq. apply (Hcells _ _ Hq).
Qed.

Lemma run_knn_ok dist_func nei junk vec len dim k :
  in_bounds vec len dim ->
  exists r, run_knn dist_func nei junk vec len dim k
            = Some (r, knn_calls dist_func vec len dim)
            /\ block_ok len r.
Proof.
  intros Hb. rewrite run_knn_scan.
  destruct (scan_spec dist_func nei vec len dim Hb (block_ok len))
    with (m := Mem (replicate (Z.to_nat len) free_node) [])
    as (m' & E & HJ & C).
  - intros l [H _]. exact H.
  - intros. eapply block_ok_put; eauto.
  - apply block_ok_free.
  - rewrite E. cbn [calls app] in C. rewrite C. eauto.
Qed.

(** With the loop bound 0 no insertion changes anything. *)
Lemma run_knn_bound_zero dist_func junk vec len dim k :
  in_bounds vec len dim ->
  run_knn dist_func 0 junk vec len dim k
  = Some (replicate (Z.to_nat len) free_node, knn_calls dist_func vec len dim).
Proof.
  intros Hb. rewrite run_knn_scan.
  destruct (scan_spec dist_func 0 vec len dim Hb
              (fun l => l = replicate (Z.to_nat len) free_node))
    with (m := Mem (replicate (Z.to_nat len) free_node) [])
    as (m' & E & HJ & C).
  - intros l ->. apply length_replicate.
  - intros l p idx d s -> Hs _ _ _. rewrite segment_put_zero.
    apply list_insert_id. exact Hs.
  - reflexivity.
  - rewrite E, HJ. cbn [calls app] in C. rewrite C. reflexivity.
Qed.







(** ** Concrete inputs *)

(** Bounds of the reads on a concrete buffer. *)
Ltac reads_in_bounds :=
  let i := fresh "i" in
  let Hi := fresh "Hi" in
  intros i Hi; unfold uint; rewrite Z.mod_small by lia; cbn; lia.

Lemma scenario_in_bounds : in_bounds scenario 4 1.
Proof. reads_in_bounds. Qed.

Example put_once :
  entries (segment_put (segment_init (Segment 7 9%float None)) 3 2.5%float 2)
  = [Entry 3 2.5%float].
Proof. vm_compute. reflexivity. Qed.

(** * What the builder returns

    With a positive loop bound and a metric that returns no negative value,
    every list keeps the first candidate it is offered: point 0 keeps point 1,
    every other point keeps point 0. *)

Lemma pair_body_run dist_func nei vec len dim i j m si sj :
  in_bounds vec len dim -> 0 <= i < len -> 0 <= j < len ->
  neigh m !! Z.to_nat i = Some si ->
  <[Z.to_nat i :=
      segment_put si j (dist_func (vec_at vec dim i) (vec_at vec dim j) dim) nei]>
    (neigh m) !! Z.to_nat j = Some sj ->
  exists c,
    pair_body dist_func nei vec dim i j m =
    Some (tt,
          Mem (<[Z.to_nat j :=
                   segment_put sj i
                     (dist_func (vec_at vec dim i) (vec_at vec dim j) dim) nei]>
                 (<[Z.to_nat i :=
                      segment_put si j
                        (dist_func (vec_at vec dim i) (vec_at vec dim j) dim) nei]>
                    (neigh m)))
              c).
Proof.
  intros Hb Hi Hj Hsi Hsj. unfold pair_body.
  unfold bind at 1. rewrite (load_vec_ok vec len dim i) by auto.
  unfold bind at 1. rewrite (load_vec_ok vec len dim j) by auto.
  unfold bind at 1, log at 1.
  unfold bind at 1. rewrite (put_step nei i j _ _ si) by exact Hsi.
  rewrite (put_step nei j i _ _ sj) by exact Hsj.
  eexists. reflexivity.
Qed.

Section FirstCandidate.

Variable dist_func : ftype -> ftype -> Z -> ftype.
Variables (nei : Z) (vec : list ftype) (len dim : Z).
Hypothesis Hvec : in_bounds vec len dim.
Hypothesis Hnei : 0 < nei.
Hypothesis Hdist : forall a b d, (dist_func a b d <? 0)%float = false.

Lemma put_free idx d : segment_put free_node idx d nei = Segment idx d None.
Proof.
  rewrite segment_put_null by reflexivity.
  replace (0 <? nei) with true by (symmetry; apply Z.ltb_lt; exact Hnei).
  reflexivity.
Qed.

Lemma head_after_put q d :
  (q = O -> d = dist_func (vec_at vec dim 0) (vec_at vec dim 1) dim) ->
  segment_put (head_after dist_func vec dim q) (Z.of_nat (S q)) d nei
  = head_after dist_func vec dim (S q).
Proof.
  intros Hd. destruct q as [|q].
  - cbn [head_after]. rewrite put_free, Hd by reflexivity. reflexivity.
  - apply segment_put_occupied; [reflexivity | apply Hdist].
Qed.

Lemma first_row r : forall q c,
  Z.of_nat (S (q + r)) = len ->
  exists c',
    for_loop r (Z.of_nat (S q))
             (fun j => pair_body dist_func nei vec dim 0 j)
             (Mem (block_after dist_func vec dim q r) c)
    = Some (tt, Mem (block_after dist_func vec dim (q + r) 0) c').
Proof.
  induction r as [|r IH]; intros q c Hlen.
  - exists c. rewrite Nat.add_0_r. reflexivity.
  - cbn [for_loop]. unfold bind.
    destruct (pair_body_run dist_func nei vec len dim 0 (Z.of_nat (S q))
                (Mem (block_after dist_func vec dim q (S r)) c)
                (head_after dist_func vec dim q) free_node)
      as [c1 E]; try exact Hvec; try lia.
    + reflexivity.
    + rewrite Nat2Z.id. cbn [neigh]. unfold block_after. change (Z.to_nat 0) with O.
      cbn [insert list_insert lookup list_lookup].
      apply list_lookup_middle. rewrite length_map, length_seq. reflexivity.
    + rewrite E. clear E. rewrite Nat2Z.id. cbn [neigh block_after].
      change (Z.to_nat 0) with O. rewrite head_after_put by (intros ->; reflexivity).
      unfold block_after at 1. cbn [insert list_insert].
      rewrite (insert_app_r_alt (map (keeps_zero dist_func vec dim) (seq 1 q)))
        by (rewrite length_map, length_seq; lia).
      rewrite length_map, length_seq, Nat.sub_diag.
      cbn [replicate insert list_insert]. rewrite put_free.
      destruct (IH (S q) c1) as [c' E']; [lia|].
      replace (Z.of_nat (S q) + 1) with (Z.of_nat (S (S q))) by lia.
      unfold block_after in E' at 1. rewrite seq_S, map_app, <- app_assoc in E'.
      cbn [map app Nat.add] in E'. unfold keeps_zero in E' at 2.
      rewrite E'. exists c'. replace (q + S r)%nat with (S (q + r)) by lia.
      reflexivity.
Qed.

Lemma block_after_occupied q :
  (1 <= q)%nat ->
  Forall (fun s => next s = None /\ (dist s <? 0)%float = false)
         (block_after dist_func vec dim q 0).
Proof.
  intros Hq. unfold block_after. constructor.
  - destruct q; [lia|]. split; [reflexivity | apply Hdist].
  - rewrite app_nil_r. apply Forall_map, Forall_forall.
    intros p _. split; [reflexivity | apply Hdist].
Qed.

Lemma builder_keeps_first_candidate junk k :
  2 <= len ->
  option_map fst (run_knn dist_func nei junk vec len dim k)
  = Some (block_after dist_func vec dim (Z.to_nat len - 1) 0).
Proof.
  intros Hlen. rewrite run_knn_scan. unfold scan, for_range.
  set (q := (Z.to_nat len - 1)%nat).
  replace (Z.to_nat (len - 0)) with (S q) by lia.
  cbn [for_loop]. unfold bind at 1.
  replace (Z.to_nat (len - (0 + 1))) with q by lia.
  destruct (first_row q O []) as [c' E]; [lia|].
  replace (Z.to_nat len) with (S q) by lia.
  change (replicate (S q) free_node) with (block_after dist_func vec dim 0 q).
  change (0 + 1) with (Z.of_nat 1). rewrite E. cbn [Nat.add].
  destruct (rows_spec dist_func nei vec len dim Hvec
              (fun l => l = block_after dist_func vec dim q 0))
    with (n := q) (i := Z.of_nat 1)
         (m := Mem (block_after dist_func vec dim q 0) c')
    as (m' & E' & HJ & _).
  - intros l ->. unfold block_after. cbn.
    rewrite app_nil_r, length_map, length_seq. lia.
  - intros l p idx d s -> Hs _ _ _.
    destruct (Forall_lookup_1 _ _ _ _ (block_after_occupied q ltac:(lia)) Hs)
      as [Hn Hd].
    rewrite segment_put_occupied by assumption. apply list_insert_id, Hs.
  - lia.
  - reflexivity.
  - unfold for_range in E'. rewrite E', HJ. reflexivity.
Qed.

End FirstCandidate.

(** * The insertion routine *)

(** C10.  A list that was initialised and then went through any sequence of
    [segment_put] calls is a single node: its [next] is null, so the loop of
    [segment_put] never leaves the head (its whole effect is to fill the head
    when the head is free) and the list has at most one entry; and once the
    head holds a distance that is not below zero, every further call, with any
    index, distance and loop bound, returns the list as it was. *)
Theorem segment_list_is_one_node (s0 : segment) (cs : list (Z * ftype * Z)) :
  next (after_calls s0 cs) = None
  /\ (forall fuel ci cd d,
        put_loop fuel (after_calls s0 cs) ci cd d =
        match fuel with
        | O => after_calls s0 cs
        | S _ => if (dist (after_calls s0 cs) <? 0)%float
                 then Segment ci cd None else after_calls s0 cs
        end)
  /\ (size (after_calls s0 cs) <= 1)%nat
  /\ ((0 <=? dist (after_calls s0 cs))%float = true ->
      forall idx d k, segment_put (after_calls s0 cs) idx d k = after_calls s0 cs).
Proof.
  assert (Hn : next (after_calls s0 cs) = None).
  { apply (after_calls_ok (fun _ => True)). apply Forall_forall. auto. }
  split; [exact Hn|]. split; [|split].
  - intros. apply put_loop_null, Hn.
  - apply size_null, Hn.
  - intros Hd idx d k. apply segment_put_occupied; [exact Hn|].
    apply nonneg_not_negative, Hd.
Qed.

(** The theorem at a list that holds [(1, 5)]: a further offer changes
    nothing. *)
Lemma segment_list_is_one_node_witness :
  segment_put (after_calls (no_junk 0) [(1, 5%float, 1)]) 2 3%float 4
  = after_calls (no_junk 0) [(1, 5%float, 1)].
Proof.
  apply (proj2 (proj2 (proj2
           (segment_list_is_one_node (no_junk 0) [(1, 5%float, 1)])))).
  vm_compute. reflexivity.
Defined.

(** * The builder *)

(** C3.  The entries of a list are in ascending order of distance, with ties
    in ascending order of id, hold no id twice and do not hold the owner:
    for a list after any sequence of offers none of which is the owner, in
    whatever order they come, and for the list of every point in the block
    the builder returns. *)
Theorem lists_sorted_distinct_without_owner :
  (forall (owner : Z) (s0 : segment) (cs : list (Z * ftype * Z)),
      Forall (fun c => fst (fst c) <> owner) cs ->
      sorted_entries (entries (after_calls s0 cs)) = true
      /\ NoDup (ids (entries (after_calls s0 cs)))
      /\ ~ In owner (ids (entries (after_calls s0 cs))))
  /\
  (forall dist_func nei junk vec len dim k,
      in_bounds vec len dim ->
      exists r t,
        run_knn dist_func nei junk vec len dim k = Some (r, t)
        /\ length r = Z.to_nat len
        /\ forall (p : nat) (s : segment),
             r !! p = Some s ->
             sorted_entries (entries s) = true
             /\ NoDup (ids (entries s))
             /\ ~ In (Z.of_nat p) (ids (entries s))).
Proof.
  split.
  - intros owner s0 cs Hcs.
    destruct (cell_ok_entries _ _ (after_calls_ok (fun i => i <> owner) s0 cs Hcs))
      as (Hs & Hd & Ho & _).
    auto using not_in_Forall_ne.
  - intros f nei junk vec len dim k Hb.
    destruct (run_knn_ok f nei junk vec len dim k Hb) as (r & E & Hlen & Hcells).
    exists r, (knn_calls f vec len dim). split; [exact E|]. split; [exact Hlen|].
    intros p s Hp. destruct (cell_ok_entries _ _ (Hcells p s Hp)) as (Hs & Hd & Ho & _).
    split; [exact Hs|]. split; [exact Hd|].
    apply not_in_Forall_ne. eapply Forall_impl; [exact Ho|].
    intros idx [Hne _]. exact Hne.
Qed.

(** The theorem at the owner 0 with the offers [two_calls], and at the
    scenario. *)
Lemma lists_sorted_distinct_without_owner_witness :
  (sorted_entries (entries (after_calls (no_junk 0) two_calls)) = true
   /\ NoDup (ids (entries (after_calls (no_junk 0) two_calls)))
   /\ ~ In 0 (ids (entries (after_calls (no_junk 0) two_calls))))
  /\
  (exists r t,
      run_knn absdiff 2 no_junk scenario 4 1 2 = Some (r, t)
      /\ length r = Z.to_nat 4
      /\ forall (p : nat) (s : segment),
           r !! p = Some s ->
           sorted_entries (entries s) = true
           /\ NoDup (ids (entries s))
           /\ ~ In (Z.of_nat p) (ids (entries s))).
Proof.
  split.
  - apply (proj1 lists_sorted_distinct_without_owner 0).
    repeat constructor; cbn; lia.
  - apply (proj2 lists_sorted_distinct_without_owner). reads_in_bounds.
Defined.


(** C7 as stated fails: the buffer [ragged], passed with [len = 2] and
    [dim = 2], holds a first vector of two elements and a second of one.  The
    builder reports nothing: it evaluates the metric on [vec[0]] and
    [vec[2]], changes both lists and returns them. *)
Lemma ragged_buffer_is_accepted :
  map length (rows ragged 2 2) = [2%nat; 1%nat]
  /\ run_knn absdiff 1 no_junk ragged 2 2 1
     = Some ([Segment 1 3%float None; Segment 0 3%float None],
             [EvDist 0 1; EvPut 0 1 3%float; EvPut 1 0 3%float]).
Proof. split; vm_compute; reflexivity. Qed.

(** C7, amended.  The builder takes the dataset as one buffer and one [dim]
    for all the vectors; it checks no dimension and has no error result.
    Whenever the elements [vec[i*dim]] it reads, for [i < len], lie in the
    buffer, it returns a block of [len] lists. *)
Theorem builder_checks_no_dimension dist_func nei junk vec len dim k :
  in_bounds vec len dim ->
  exists r t,
    run_knn dist_func nei junk vec len dim k = Some (r, t)
    /\ length r = Z.to_nat len.
Proof.
  intros Hb.
  destruct (run_knn_ok dist_func nei junk vec len dim k Hb) as (r & E & Hlen & _).
  eauto.
Qed.

(** The theorem at the buffer [ragged]. *)
Lemma builder_checks_no_dimension_witness :
  exists r t,
    run_knn absdiff 1 no_junk ragged 2 2 1 = Some (r, t)
    /\ length r = Z.to_nat 2.
Proof.
  apply builder_checks_no_dimension. reads_in_bounds.
Defined.

(** C8.  Two runs on the same buffer, [len] and [dim], with the same loop
    bound for the insertions and with metrics that agree on all arguments,
    return the same block and make the same calls, whatever the allocated
    block held before the initialisation and whatever [max_nei] is passed. *)
Theorem builder_is_deterministic
        (f1 f2 : ftype -> ftype -> Z -> ftype) nei junk1 junk2 vec len dim k1 k2 :
  (forall a b d, f1 a b d = f2 a b d) ->
  run_knn f1 nei junk1 vec len dim k1 = run_knn f2 nei junk2 vec len dim k2.
Proof.
  intros Hf. rewrite !run_knn_scan. unfold scan, for_range.
  rewrite (for_loop_ext
             (fun i => for_loop (Z.to_nat (len - (i + 1))) (i + 1)
                         (fun j => pair_body f1 nei vec dim i j))
             (fun i => for_loop (Z.to_nat (len - (i + 1))) (i + 1)
                         (fun j => pair_body f2 nei vec dim i j))).
  - reflexivity.
  - intros i m. apply for_loop_ext. intros j m'. apply pair_body_ext, Hf.
Qed.

(** The theorem at the scenario, with two fillings of the allocated
    block. *)
Lemma builder_is_deterministic_witness :
  run_knn absdiff 2 no_junk scenario 4 1 2
  = run_knn (fun a b _ => abs (a - b)%float) 2 some_junk scenario 4 1 2.
Proof.
  apply builder_is_deterministic. intros a b d. reflexivity.
Defined.



(** * Where the code and the design document part

    The insertion loop has no branch that replaces an entry and none that
    appends a node: the branch [cur->dist > dist] is empty and so is the
    branch [cur->next == NULL].  The statements below run the code on
    concrete inputs next to the list of the design document. *)

(** C1.  On the scenario of the design document (values 0, 1, 3, 6 of
    dimension 1, absolute difference, K = 2) the builder returns for every
    point the first candidate it was offered, which is neither the set of the
    two nearest points nor, for points 2 and 3, the nearest one: with the
    insertions run with the loop bound 2 and K = 2, with the loop bound 1 and
    K = 1, and, for K = 2, whatever the loop bound is. *)
Theorem scenario_lists_are_not_the_nearest :
  option_map (fun r => map entries (fst r))
             (run_knn absdiff 2 no_junk scenario 4 1 2)
  = Some [[Entry 1 1%float]; [Entry 0 1%float]; [Entry 0 3%float]; [Entry 0 6%float]]
  /\ map (true_nearest absdiff scenario 4 1 2) [0; 1; 2; 3]
     = [[Entry 1 1%float; Entry 2 3%float]; [Entry 0 1%float; Entry 2 2%float];
        [Entry 1 2%float; Entry 0 3%float]; [Entry 2 3%float; Entry 1 5%float]]
  /\ option_map (fun r => map entries (fst r))
                (run_knn absdiff 1 no_junk scenario 4 1 1)
     = Some [[Entry 1 1%float]; [Entry 0 1%float]; [Entry 0 3%float]; [Entry 0 6%float]]
  /\ map (true_nearest absdiff scenario 4 1 1) [0; 1; 2; 3]
     = [[Entry 1 1%float]; [Entry 0 1%float]; [Entry 1 2%float]; [Entry 2 3%float]]
  /\ forall nei, exists r t,
       run_knn absdiff nei no_junk scenario 4 1 2 = Some (r, t)
       /\ map entries r <> map (true_nearest absdiff scenario 4 1 2) [0; 1; 2; 3].
Proof.
  split; [vm_compute; reflexivity|]. split; [vm_compute; reflexivity|].
  split; [vm_compute; reflexivity|]. split; [vm_compute; reflexivity|].
  intros nei.
  destruct (run_knn_ok absdiff nei no_junk scenario 4 1 2 scenario_in_bounds)
    as (r & E & _ & Hcells).
  exists r, (knn_calls absdiff scenario 4 1). split; [exact E|].
  intros Heq. destruct r as [|s r]; [discriminate|].
  destruct (cell_ok_entries _ _ (Hcells O s eq_refl)) as (_ & _ & _ & Hsize).
  injection Heq as Hs _. unfold size in Hsize. rewrite Hs in Hsize.
  vm_compute in Hsize. lia.
Qed.

(** C2.  On the same scenario every list the builder returns has one entry,
    where [min K (N - 1)] is 2; and for no value of the loop bound of the
    insertions does a list get beyond one entry. *)
Theorem scenario_lists_have_one_entry :
  option_map (fun r => map size (fst r))
             (run_knn absdiff 2 no_junk scenario 4 1 2)
  = Some [1%nat; 1%nat; 1%nat; 1%nat]
  /\ Z.to_nat (Z.min 2 (4 - 1)) = 2%nat
  /\ forall nei, exists r t,
       run_knn absdiff nei no_junk scenario 4 1 2 = Some (r, t)
       /\ Forall (fun s => (size s <= 1)%nat) r.
Proof.
  split; [vm_compute; reflexivity|]. split; [reflexivity|].
  intros nei.
  destruct (run_knn_ok absdiff nei no_junk scenario 4 1 2 scenario_in_bounds)
    as (r & E & _ & Hcells).
  exists r, (knn_calls absdiff scenario 4 1). split; [exact E|].
  apply Forall_lookup. intros p s Hp.
  apply (cell_ok_entries _ _ (Hcells p s Hp)).
Qed.

(** C4.  A list of capacity 1 that holds [(1, 5)] is full.  Offered [(2, 3)],
    a nearer candidate of another id, the code returns the list unchanged;
    the list of the design document accepts the offer and evicts [(1, 5)]. *)
Theorem full_list_keeps_its_entry :
  entries (after_offers 1 (no_junk 0) [(1, 5%float)]) = [Entry 1 5%float]
  /\ segment_put (after_offers 1 (no_junk 0) [(1, 5%float)]) 2 3%float 1
     = after_offers 1 (no_junk 0) [(1, 5%float)]
  /\ doc_try_insert 1 [Entry 1 5%float] (Entry 2 3%float)
     = (true, [Entry 2 3%float]).
Proof. repeat split; vm_compute; reflexivity. Qed.

(** C6.  The same two offers in the two orders leave different lists: the
    code keeps whichever came first, where the list of the design document
    ends with the nearer one in both orders. *)
Theorem offer_order_changes_the_list :
  entries (after_offers 1 (no_junk 0) [(1, 5%float); (2, 3%float)])
  = [Entry 1 5%float]
  /\ entries (after_offers 1 (no_junk 0) [(2, 3%float); (1, 5%float)])
     = [Entry 2 3%float]
  /\ doc_offers 1 [(1, 5%float); (2, 3%float)] = [Entry 2 3%float]
  /\ doc_offers 1 [(2, 3%float); (1, 5%float)] = [Entry 2 3%float].
Proof. repeat split; vm_compute; reflexivity. Qed.

(** X7.  The part of C6 that the code does satisfy: the two insertions made
    for a pair go to two different lists, so either order leaves the same
    block. *)
Lemma pair_insertions_commute nei i j d m si sj :
  Z.to_nat i <> Z.to_nat j ->
  neigh m !! Z.to_nat i = Some si ->
  neigh m !! Z.to_nat j = Some sj ->
  option_map (fun r => neigh (snd r)) ((put nei i j d ;;; put nei j i d) m)
  = option_map (fun r => neigh (snd r)) ((put nei j i d ;;; put nei i j d) m).
Proof.
  intros Hne Hi Hj. unfold bind.
  rewrite (put_step nei i j d m si Hi), (put_step nei j i d m sj Hj).
  rewrite (put_step nei j i d _ sj)
    by (cbn [neigh]; rewrite list_lookup_insert_ne by exact Hne; exact Hj).
  rewrite (put_step nei i j d _ si)
    by (cbn [neigh]; rewrite list_lookup_insert_ne by auto; exact Hi).
  cbn [option_map snd neigh]. f_equal.
  apply list_insert_insert_ne. auto.
Qed.

(** * Further properties of the insertion routine, on chains of any length *)

Lemma put_loop_step fuel i x n ci cd d :
  put_loop (S fuel) (Segment i x n) ci cd d =
  if (x <? 0)%float then Segment ci cd n
  else match n with
       | None => put_loop fuel (Segment i x None) ci cd d
       | Some nx => Segment i x (Some (put_loop fuel nx ci cd d))
       end.
Proof.
  cbn [put_loop dist next index].
  destruct (x <? 0)%float; [reflexivity|].
  destruct (d <? x)%float; cbn [next dist index]; destruct n; reflexivity.
Qed.

(** X1.  [segment_put] never allocates, unlinks or overwrites: for every
    chain and every arguments, the chain keeps its number of nodes, the
    entries it held are all still there in the same order, and it has at
    most one entry more. *)
Theorem segment_put_never_drops (this : segment) (idx : Z) (d : ftype) (k : Z) :
  chain_length (segment_put this idx d k) = chain_length this
  /\ sublist (entries this) (entries (segment_put this idx d k))
  /\ (size (segment_put this idx d k) <= S (size this))%nat.
Proof.
  unfold segment_put, size. generalize (Z.to_nat k) as fuel.
  intros fuel. revert this.
  induction fuel as [|fuel IH]; intros [i x n].
  - cbn [put_loop]. split; [reflexivity|]. split; [reflexivity | lia].
  - rewrite put_loop_step. destruct (x <? 0)%float eqn:E.
    + cbn [chain_length entries]. rewrite E. split; [reflexivity|]. split.
      * apply sublist_inserts_l. reflexivity.
      * rewrite !length_app. destruct (d <? 0)%float; cbn [length]; lia.
    + destruct n as [nx|]; [|apply IH].
      destruct (IH nx) as (Hlen & Hsub & Hsize).
      cbn [chain_length entries]. rewrite E, Hlen. split; [reflexivity|]. split.
      * apply sublist_app; [reflexivity | exact Hsub].
      * rewrite !length_app. cbn [length]. lia.
Qed.

(** X2.  When none of the first [max_nei] nodes of the chain is free, the
    call changes nothing: a candidate offered to such a list is dropped,
    however near it is. *)
Theorem segment_put_without_free_node (this : segment) (idx : Z) (d : ftype) (k : Z) :
  has_free (Z.to_nat k) this = false ->
  segment_put this idx d k = this.
Proof.
  unfold segment_put. generalize (Z.to_nat k) as fuel. intros fuel. revert this.
  induction fuel as [|fuel IH]; intros [i x n] Hfree; [reflexivity|].
  rewrite put_loop_step. cbn [has_free] in Hfree.
  apply orb_false_iff in Hfree as [E Hn]. rewrite E.
  destruct n as [nx|].
  - rewrite IH by exact Hn. reflexivity.
  - apply IH. destruct fuel; cbn [has_free]; [reflexivity|].
    rewrite E. reflexivity.
Qed.

(** The theorem at a chain of two occupied nodes and a candidate nearer than
    both. *)
Lemma segment_put_without_free_node_witness :
  segment_put (Segment 1 5%float (Some (Segment 2 7%float None))) 3 1%float 2
  = Segment 1 5%float (Some (Segment 2 7%float None)).
Proof.
  apply segment_put_without_free_node. vm_compute. reflexivity.
Defined.

(** X3.  When one of the first [max_nei] nodes of the chain is free and the
    distance offered is not negative, the candidate is stored: it is an entry
    of the list afterwards and the list has exactly one entry more. *)
Theorem segment_put_stores_in_free_node (this : segment) (idx : Z) (d : ftype) (k : Z) :
  (d <? 0)%float = false ->
  has_free (Z.to_nat k) this = true ->
  size (segment_put this idx d k) = S (size this)
  /\ In (Entry idx d) (entries (segment_put this idx d k)).
Proof.
  intros Hd. unfold segment_put, size.
  generalize (Z.to_nat k) as fuel. intros fuel. revert this.
  induction fuel as [|fuel IH]; intros [i x n] Hfree; [discriminate|].
  rewrite put_loop_step. cbn [has_free] in Hfree.
  destruct (x <? 0)%float eqn:E.
  - cbn [entries]. rewrite E, Hd. split; [reflexivity | left; reflexivity].
  - cbn [orb] in Hfree. destruct n as [nx|]; [|discriminate].
    destruct (IH nx Hfree) as [Hsize Hin].
    cbn [entries]. rewrite E. cbn [app length]. split; [lia|].
    right. exact Hin.
Qed.

(** The theorem at a chain whose second node is free. *)
Lemma segment_put_stores_in_free_node_witness :
  size (segment_put (Segment 1 5%float (Some free_node)) 3 1%float 2)
  = S (size (Segment 1 5%float (Some free_node)))
  /\ In (Entry 3 1%float)
        (entries (segment_put (Segment 1 5%float (Some free_node)) 3 1%float 2)).
Proof.
  apply segment_put_stores_in_free_node; vm_compute; reflexivity.
Defined.

(** X4.  A candidate with a negative distance never becomes an entry: the
    value written is itself the mark of a free node, so the entries of the
    list are the same before and after the call. *)
Theorem segment_put_negative_is_invisible (this : segment) (idx : Z) (d : ftype) (k : Z) :
  (d <? 0)%float = true ->
  entries (segment_put this idx d k) = entries this.
Proof.
  intros Hd. unfold segment_put.
  generalize (Z.to_nat k) as fuel. intros fuel. revert this.
  induction fuel as [|fuel IH]; intros [i x n]; [reflexivity|].
  rewrite put_loop_step. destruct (x <? 0)%float eqn:E.
  - cbn [entries]. rewrite E, Hd. reflexivity.
  - destruct n as [nx|]; [|apply IH].
    cbn [entries]. rewrite E, (IH nx). reflexivity.
Qed.

(** The theorem at a free list and the candidate [(3, -2)]. *)
Lemma segment_put_negative_is_invisible_witness :
  entries (segment_put free_node 3 (-2)%float 1) = entries free_node.
Proof.
  apply segment_put_negative_is_invisible. vm_compute. reflexivity.
Defined.

(** * Further properties of the builder *)

(** The theorem X5 at two offers with the loop bound 1. *)
Lemma after_offers_first_witness :
  after_offers 1 (no_junk 0) [(1, 5%float); (2, 3%float)]
  = Segment 1 5%float None.
Proof.
  apply (after_offers_first 1 (no_junk 0) (1, 5%float) [(2, 3%float)]).
  - lia.
  - repeat constructor.
Defined.

(** The theorem X7 at a block of two free lists. *)
Lemma pair_insertions_commute_witness :
  option_map (fun r => neigh (snd r))
             ((put 1 0 1 2%float ;;; put 1 1 0 2%float)
                (Mem [free_node; free_node] []))
  = option_map (fun r => neigh (snd r))
               ((put 1 1 0 2%float ;;; put 1 0 1 2%float)
                  (Mem [free_node; free_node] [])).
Proof.
  apply (pair_insertions_commute 1 0 1 2%float (Mem [free_node; free_node] [])
           free_node free_node).
  - vm_compute. lia.
  - reflexivity.
  - reflexivity.
Defined.

Lemma map_is_fmap {A B} (f : A -> B) (l : list A) : map f l = f <$> l.
Proof. reflexivity. Qed.

(** X6.  With at least two points, a positive loop bound and a metric that
    returns no negative value, the builder returns for point 0 the single
    entry [(1, d(0,1))] and for every other point [p] the single entry
    [(0, d(0,p))], where [d(i,j)] is the metric on [vec[i*dim]] and
    [vec[j*dim]]: every list holds the first candidate offered to it,
    whatever the distances of the later ones. *)
Theorem builder_returns_first_offers dist_func nei junk vec len dim k :
  in_bounds vec len dim ->
  0 < nei ->
  (forall a b d, (dist_func a b d <? 0)%float = false) ->
  2 <= len ->
  exists r t,
    run_knn dist_func nei junk vec len dim k = Some (r, t)
    /\ r !! O
       = Some (Segment 1 (dist_func (vec_at vec dim 0) (vec_at vec dim 1) dim) None)
    /\ forall p, 1 <= p < len ->
         r !! Z.to_nat p
         = Some (Segment 0 (dist_func (vec_at vec dim 0) (vec_at vec dim p) dim) None).
Proof.
  intros Hb Hnei Hd Hlen.
  pose proof (builder_keeps_first_candidate dist_func nei vec len dim
                Hb Hnei Hd junk k Hlen) as H.
  destruct (run_knn dist_func nei junk vec len dim k) as [[r t]|];
    [|discriminate].
  injection H as ->. exists (block_after dist_func vec dim (Z.to_nat len - 1) 0), t.
  split; [reflexivity|]. unfold block_after. split.
  - cbn [lookup list_lookup]. destruct (Z.to_nat len - 1)%nat eqn:E; [lia|].
    reflexivity.
  - intros p Hp. replace (Z.to_nat p) with (S (Z.to_nat p - 1)) by lia.
    rewrite lookup_cons, app_nil_r, map_is_fmap, list_lookup_fmap.
    rewrite lookup_seq_lt by lia. cbn [fmap option_fmap option_map].
    unfold keeps_zero. do 4 f_equal. lia.
Qed.

(** The theorem at the scenario. *)
Lemma builder_returns_first_offers_witness :
  exists r t,
    run_knn absdiff 2 no_junk scenario 4 1 2 = Some (r, t)
    /\ r !! O
       = Some (Segment 1 (absdiff (vec_at scenario 1 0) (vec_at scenario 1 1) 1) None)
    /\ forall p, 1 <= p < 4 ->
         r !! Z.to_nat p
         = Some (Segment 0 (absdiff (vec_at scenario 1 0) (vec_at scenario 1 p) 1) None).
Proof.
  apply builder_returns_first_offers.
  - reads_in_bounds.
  - lia.
  - intros a b d. apply abs_not_negative.
  - lia.
Defined.






Lemma for_loop_fails (body : Z -> M unit) (k : Z) :
  (forall m, body k m = None) ->
  forall n i m, i <= k < i + Z.of_nat n -> for_loop n i body m = None.
Proof.
  intros Hk. induction n as [|n IH]; intros i m Hi; [lia|].
  cbn [for_loop]. unfold bind.
  destruct (body i m) as [[[] m1]|] eqn:E; [|reflexivity].
  destruct (Z.eq_dec i k) as [-> | Hne].
  - rewrite Hk in E. discriminate.
  - apply IH. lia.
Qed.

Lemma pair_body_fails dist_func nei vec dim i j m :
  vec !! Z.to_nat (uint (i * dim)) = None
  \/ vec !! Z.to_nat (uint (j * dim)) = None ->
  pair_body dist_func nei vec dim i j m = None.
Proof.
  intros H. unfold pair_body, bind, load_vec.
  destruct (vec !! Z.to_nat (uint (i * dim))); [|reflexivity].
  destruct H as [H | H]; [discriminate|]. rewrite H. reflexivity.
Qed.

(** X9.  With at least two points the builder reads the element [vec[i*dim]]
    of every point [i < len]: it runs without an access outside the buffer
    exactly when all these elements lie in the buffer. *)
Theorem builder_safe_iff_in_bounds dist_func nei junk vec len dim k :
  2 <= len ->
  (run_knn dist_func nei junk vec len dim k <> None <-> in_bounds vec len dim).
Proof.
  intros Hlen. split.
  - intros Hrun b Hb.
    destruct (Z_lt_dec (uint (b * dim)) (Z.of_nat (length vec))) as [|Hout];
      [assumption|].
    exfalso. apply Hrun. rewrite run_knn_scan. unfold scan, for_range.
    rewrite (for_loop_fails _ 0); [reflexivity | | lia].
    intros m.
    assert (Hnone : vec !! Z.to_nat (uint (b * dim)) = None).
    { apply lookup_ge_None_2. pose proof (uint_nonneg (b * dim)). lia. }
    destruct (Z.eq_dec b 0) as [-> | Hb0].
    + apply (for_loop_fails _ 1); [|lia].
      intros m'. apply pair_body_fails. left. exact Hnone.
    + apply (for_loop_fails _ b); [|lia].
      intros m'. apply pair_body_fails. right. exact Hnone.
  - intros Hb.
    destruct (run_knn_ok dist_func nei junk vec len dim k Hb) as (r & E & _).
    rewrite E. discriminate.
Qed.

(** The theorem at the scenario. *)
Lemma builder_safe_iff_in_bounds_witness :
  run_knn absdiff 2 no_junk scenario 4 1 2 <> None <-> in_bounds scenario 4 1.
Proof.
  apply builder_safe_iff_in_bounds. lia.
Defined.

Lemma for_loop_ext_range (b1 b2 : Z -> M unit) n : forall i m,
  (forall k m', i <= k < i + Z.of_nat n -> b1 k m' = b2 k m') ->
  for_loop n i b1 m = for_loop n i b2 m.
Proof.
  induction n as [|n IH]; intros i m Hb; [reflexivity|].
  cbn [for_loop]. unfold bind. rewrite Hb by lia.
  destruct (b2 i m) as [[[] m']|]; [|reflexivity].
  apply IH. intros k m'' Hk. apply Hb. lia.
Qed.

(** X10.  Of the buffer, the result depends only on the elements
    [vec[i*dim]] for [i < len], the first element of each vector: two buffers
    that agree on those give the same block and the same calls, whatever
    else they hold and whatever their lengths. *)
Theorem builder_reads_first_elements_only dist_func nei junk vec1 vec2 len dim k :
  (forall i, 0 <= i < len ->
     vec1 !! Z.to_nat (uint (i * dim)) = vec2 !! Z.to_nat (uint (i * dim))) ->
  run_knn dist_func nei junk vec1 len dim k
  = run_knn dist_func nei junk vec2 len dim k.
Proof.
  intros Hv. rewrite !run_knn_scan. unfold scan, for_range.
  rewrite (for_loop_ext_range
             (fun i => for_loop (Z.to_nat (len - (i + 1))) (i + 1)
                         (fun j => pair_body dist_func nei vec1 dim i j))
             (fun i => for_loop (Z.to_nat (len - (i + 1))) (i + 1)
                         (fun j => pair_body dist_func nei vec2 dim i j)));
    [reflexivity|].
  intros i m Hi. apply for_loop_ext_range. intros j m' Hj.
  unfold pair_body, bind, load_vec. rewrite (Hv i), (Hv j) by lia.
  reflexivity.
Qed.

(** The theorem at the scenario and at a buffer of the same first elements
    followed by two more values. *)
Lemma builder_reads_first_elements_only_witness :
  run_knn absdiff 2 no_junk scenario 4 1 2
  = run_knn absdiff 2 no_junk (scenario ++ [9; 9]%float) 4 1 2.
Proof.
  apply builder_reads_first_elements_only. intros i Hi.
  assert (H : i = 0 \/ i = 1 \/ i = 2 \/ i = 3) by lia.
  destruct H as [-> | [-> | [-> | ->]]]; reflexivity.
Defined.
